(** * The chat channel of objects/channel.py

    A shallow embedding of the class [Channel]: its attributes as a record,
    its methods as computations over that record, and the calls it makes on
    its collaborators (a player's [enqueue], the global channel list's
    [remove]) recorded as a log of events, in the order they are made. *)

From Stdlib Require Import String Ascii List ZArith Bool Arith Lia.
Import ListNotations.

Local Open Scope string_scope.
Local Open Scope list_scope.

(** ** Python values used by the class *)

(** [bytes]: what [packets.sendMessage] builds and [enqueue] passes on. *)
Definition bytes := list Byte.byte.

(** [s.startswith(prefix)] *)
Fixpoint startswith (s prefix : string) {struct prefix} : bool :=
  match prefix with
  | EmptyString => true
  | String a prefix' =>
      match s with
      | EmptyString => false
      | String b s' => Ascii.eqb a b && startswith s' prefix'
      end
  end.

Section PyList.
Context {A : Type} (eq_dec : forall x y : A, {x = y} + {x <> y}).

  (** [l.remove(x)]: drops the first item equal to [x]; [None] is the
      [ValueError] Python raises when no item is equal to [x]. *)
Fixpoint list_remove (x : A) (l : list A) : option (list A) :=
    match l with
    | [] => None
    | y :: l' =>
        if eq_dec x y then Some l'
        else option_map (cons y) (list_remove x l')
    end.

  (** [x in l] *)
Definition list_contains (x : A) (l : list A) : bool :=
    if in_dec eq_dec x l then true else false.
End PyList.

(** Modelled from the spec: the class [objects.player.Player] is imported
    for type checking only and is not part of channel.py.  A session has an
    identity (its [id] and its display [name]) and an [enqueue] capability;
    [obj] is the identity of the Python object, so that [==] on players
    (which the class does not override) is equality of these records. *)
Module Player.
Record t := mk { obj : nat; id : Z; name : string }.

Definition eq_dec (p q : t) : {p = q} + {p <> q}.
Proof.
    decide equality; [apply string_dec | apply Z.eq_dec | apply Nat.eq_dec].
  Defined.
End Player.

Module Channel.

  (** The slots of the class.  [Privileges] (constants.privileges) is an
      integer flag type declared outside channel.py; [read] and [write] carry
      its integer value. *)
Record t := mk {
    _name : string;
    topic : string;
    players : list Player.t;
    read : Z;
    write : Z;
    auto_join : bool;
    instance : bool
  }.

  (** [__init__]: the member list starts empty. *)
Definition __init__ (name topic : string) (read write : Z)
      (auto_join instance : bool) : t :=
    {| _name := name; topic := topic; players := [];
       read := read; write := write;
       auto_join := auto_join; instance := instance |}.

Definition set_players (c : t) (l : list Player.t) : t :=
    {| _name := _name c; topic := topic c; players := l;
       read := read c; write := write c;
       auto_join := auto_join c; instance := instance c |}.

  (** *** Calls on collaborators and exceptions

    [Player.enqueue] and [glob.channels.remove] are methods of other
    modules.  A call to one of them is recorded with its arguments, in the
    order the calls are made, and is taken to return without raising and
    without touching the channel.  The coroutines ([async def]) are run to
    completion by a single caller; interleaving with other tasks is not
    modelled. *)

Inductive event :=
  | PlayerEnqueue (p : Player.t) (data : bytes)   (* p.enqueue(data) *)
  | ChannelsRemove (c : t).                        (* glob.channels.remove(c) *)

Inductive exn := ValueError.

Inductive outcome (A : Type) :=
  | Returned (a : A)
  | Raised (e : exn).
Arguments Returned {A} a.
Arguments Raised {A} e.

  (** What a method call leaves behind: how it ended, the channel object
      afterwards, and the calls it made on collaborators. *)
Record run (A : Type) := mkRun {
    result : outcome A;
    self' : t;
    emitted : list event
  }.
Arguments mkRun {A} _ _ _.
Arguments result {A} _.
Arguments self' {A} _.
Arguments emitted {A} _.

  (** A method body: a computation on [self]. *)
Definition M (A : Type) := t -> run A.

Definition ret {A} (a : A) : M A := fun c => mkRun (Returned a) c [].

Definition bind {A B} (m : M A) (k : A -> M B) : M B := fun c =>
    let r := m c in
    match result r with
    | Returned a =>
        let r2 := k a (self' r) in
        mkRun (result r2) (self' r2) (emitted r ++ emitted r2)
    | Raised e => mkRun (Raised e) (self' r) (emitted r)
    end.

Definition get_self : M t := fun c => mkRun (Returned c) c [].
Definition put_players (l : list Player.t) : M unit :=
    fun c => mkRun (Returned tt) (set_players c l) [].
Definition call (e : event) : M unit := fun c => mkRun (Returned tt) c [e].
Definition raise {A} (e : exn) : M A := fun c => mkRun (Raised e) c [].

Declare Scope py_scope.
Delimit Scope py_scope with py.
Notation "x <- m ;; k" := (bind m (fun x => k))
    (at level 100, m at next level, right associativity) : py_scope.
Notation "m ;;; k" := (bind m (fun _ => k))
    (at level 100, right associativity) : py_scope.
Local Open Scope py_scope.

  (** [for x in l: body(x)] *)
Fixpoint for_ {A} (l : list A) (body : A -> M unit) : M unit :=
    match l with
    | [] => ret tt
    | x :: l' => body x ;;; for_ l' body
    end.

  (** *** The methods *)

  (** The [name] property. *)
Definition name (c : t) : string :=
    if startswith (_name c) "#spec_" then "#spectator"
    else if startswith (_name c) "#multi_" then "#multiplayer"
    else _name c.

  (** The [basic_info] property. *)
Definition basic_info (c : t) : string * string * nat :=
    (name c, topic c, length (players c)).

Definition __contains__ (c : t) (p : Player.t) : bool :=
    list_contains Player.eq_dec p (players c).

  (** [__repr__]: the f-string '<{self._name}>'. *)
Definition __repr__ (c : t) : string :=
    ("<" ++ _name c ++ ">")%string.

  (** [enqueue(data, immune)] *)
Definition enqueue (data : bytes) (immune : list Z) : M unit :=
    c <- get_self ;;
    for_ (players c) (fun p =>
      if existsb (Z.eqb (Player.id p)) immune then ret tt
      else call (PlayerEnqueue p data)).

  (** [append(p)] *)
Definition append (p : Player.t) : M unit :=
    c <- get_self ;;
    put_players (players c ++ [p]).

  (** [remove(p)] *)
Definition remove (p : Player.t) : M unit :=
    c <- get_self ;;
    if Nat.eqb (length (players c)) 1 && instance c then
      call (ChannelsRemove c)
    else
      match list_remove Player.eq_dec p (players c) with
      | Some l => put_players l
      | None => raise ValueError
      end.

Section Packets.
    (** [packets.sendMessage(client, msg, target, client_id)]: the wire
        encoder lives in another module; the channel only passes its result
        on. *)
Variable sendMessage : string -> string -> string -> Z -> bytes.

    (** [send(client, msg, to_self)] *)
Definition send (client : Player.t) (msg : string) (to_self : bool)
        : M unit :=
      c <- get_self ;;
      enqueue
        (sendMessage (Player.name client) msg (name c) (Player.id client))
        (if to_self then [] else [Player.id client]).

    (** [send_selective(client, msg, targets)] *)
Definition send_selective (client : Player.t) (msg : string)
        (targets : list Player.t) : M unit :=
      for_ targets (fun p =>
        c <- get_self ;;
        call (PlayerEnqueue p
          (sendMessage (Player.name client) msg (name c) (Player.id client)))).
End Packets.

  (** *** Replaying a sequence of join and leave calls *)

Inductive op :=
  | Join (p : Player.t)
  | Leave (p : Player.t).

Definition step (o : op) : M unit :=
    match o with
    | Join p => append p
    | Leave p => remove p
    end.

Definition replay (ops : list op) : M unit := for_ ops step.

End Channel.

(** ** Vocabulary of the properties *)

(** The guard of the first branch of [Channel.remove]. *)
Definition takes_deletion_branch (c : Channel.t) : bool :=
  Nat.eqb (length (Channel.players c)) 1 && Channel.instance c.

(** How many times a log asks the global channel list to remove a channel. *)
Definition removal_requests (log : list Channel.event) : nat :=
  length (filter (fun e => match e with
                           | Channel.ChannelsRemove _ => true
                           | Channel.PlayerEnqueue _ _ => false
                           end) log).

(** The session identities of a member list. *)
Definition identities (l : list Player.t) : list Z := map Player.id l.

(** The sessions a sequence of calls joins, and those it makes leave. *)
Fixpoint joined (ops : list Channel.op) : list Player.t :=
  match ops with
  | [] => []
  | Channel.Join p :: ops' => p :: joined ops'
  | Channel.Leave _ :: ops' => joined ops'
  end.

Fixpoint departed (ops : list Channel.op) : list Player.t :=
  match ops with
  | [] => []
  | Channel.Join _ :: ops' => departed ops'
  | Channel.Leave p :: ops' => p :: departed ops'
  end.

(** Each call of a replay, paired with the channel it is made on. *)
Fixpoint history (c : Channel.t) (ops : list Channel.op)
    : list (Channel.t * Channel.op) :=
  match ops with
  | [] => []
  | o :: ops' => (c, o) :: history (Channel.self' (Channel.step o c)) ops'
  end.

(** A leave that names a present session and does not delete the channel. *)
Definition plain_leave (x : Channel.t * Channel.op) : Prop :=
  match snd x with
  | Channel.Join _ => True
  | Channel.Leave p =>
      In p (Channel.players (fst x)) /\ takes_deletion_branch (fst x) = false
  end.

(** How many [enqueue] calls a log makes on the player [q]. *)
Definition deliveries_to (q : Player.t) (log : list Channel.event) : nat :=
  length (filter (fun e => match e with
                           | Channel.PlayerEnqueue p _ =>
                               if Player.eq_dec p q then true else false
                           | Channel.ChannelsRemove _ => false
                           end) log).

(** The members a fan-out with the given [immune] identities passes over. *)
Definition is_immune (immune : list Z) (p : Player.t) : bool :=
  existsb (Z.eqb (Player.id p)) immune.

(** The packet a channel builds for [client]'s [msg], as both [send] and
    [send_selective] do. *)
Definition packet (sendMessage : string -> string -> string -> Z -> bytes)
    (c : Channel.t) (client : Player.t) (msg : string) : bytes :=
  sendMessage (Player.name client) msg (Channel.name c) (Player.id client).

(** Sample sessions and a sample encoder, for the concrete instances. *)
Definition alice : Player.t := Player.mk 1 1001 "alice".
Definition bob : Player.t := Player.mk 2 1002 "bob".
Definition carol : Player.t := Player.mk 3 1003 "carol".

Definition plain_sendMessage (client msg target : string) (client_id : Z)
    : bytes :=
  list_byte_of_string (target ++ " " ++ client ++ ": " ++ msg).

Definition lobby (instance : bool) (members : list Player.t) : Channel.t :=
  Channel.set_players
    (Channel.__init__ "#multi_7" "lobby chat" 1 1 false instance) members.

(** ** Facts about the Python primitives *)

Lemma startswith_iff (prefix s : string) :
  startswith s prefix = true <-> exists rest, s = (prefix ++ rest)%string.
Proof.
  revert s; induction prefix as [|a prefix IH]; intros s; cbn [startswith].
  - split; [intros _; exists s; reflexivity | reflexivity].
  - destruct s as [|b s].
    + split; [discriminate | intros [rest H]; discriminate H].
    + rewrite andb_true_iff, Ascii.eqb_eq, IH. split.
      * intros [-> [rest ->]]. exists rest. reflexivity.
      * intros [rest H]. cbn in H. injection H as -> ->.
        split; [reflexivity | exists rest; reflexivity].
Qed.

Lemma startswith_false (prefix s : string) :
  startswith s prefix = false <-> ~ exists rest, s = (prefix ++ rest)%string.
Proof.
  rewrite <- startswith_iff. destruct (startswith s prefix); split; congruence.
Qed.

Section ListRemoveFacts.
Context {A : Type} (eq_dec : forall x y : A, {x = y} + {x <> y}).

Lemma list_remove_absent (x : A) (l : list A) :
  ~ In x l -> list_remove eq_dec x l = None.
Proof.
  induction l as [|y l IH]; intros Hx; cbn [list_remove]; [reflexivity|].
  destruct (eq_dec x y) as [->|_].
  - exfalso. apply Hx. left. reflexivity.
  - rewrite IH; [reflexivity|]. intros Hin. apply Hx. right. exact Hin.
Qed.

Lemma list_remove_present (x : A) (l : list A) :
  In x l ->
  exists l', list_remove eq_dec x l = Some l' /\ length l = S (length l').
Proof.
  induction l as [|y l IH]; intros Hx; [destruct Hx|].
  cbn [list_remove]. destruct (eq_dec x y) as [->|Hne].
  - exists l. split; reflexivity.
  - destruct Hx as [Hx|Hx]; [congruence|].
    destruct (IH Hx) as (l' & -> & Hlen).
    exists (y :: l'). cbn. split; [reflexivity | congruence].
Qed.

Lemma list_remove_one (x : A) : list_remove eq_dec x [x] = Some [].
Proof.
  cbn [list_remove]. destruct (eq_dec x x); [reflexivity | congruence].
Qed.
End ListRemoveFacts.

(** ** The two branches of [Channel.remove] *)

Lemma deletion_guard (c : Channel.t) :
  takes_deletion_branch c = true <->
  length (Channel.players c) = 1 /\ Channel.instance c = true.
Proof.
  unfold takes_deletion_branch. rewrite andb_true_iff, Nat.eqb_eq. tauto.
Qed.

Lemma remove_deleting (c : Channel.t) (p : Player.t) :
  takes_deletion_branch c = true ->
  Channel.remove p c
  = Channel.mkRun (Channel.Returned tt) c [Channel.ChannelsRemove c].
Proof.
  unfold takes_deletion_branch. intros Hg.
  unfold Channel.remove, Channel.bind, Channel.get_self.
  cbn. rewrite Hg. reflexivity.
Qed.

Lemma remove_plain (c : Channel.t) (p : Player.t) :
  takes_deletion_branch c = false ->
  Channel.remove p c
  = match list_remove Player.eq_dec p (Channel.players c) with
    | Some l =>
        Channel.mkRun (Channel.Returned tt) (Channel.set_players c l) []
    | None => Channel.mkRun (Channel.Raised Channel.ValueError) c []
    end.
Proof.
  unfold takes_deletion_branch. intros Hg.
  unfold Channel.remove, Channel.bind, Channel.get_self.
  cbn. rewrite Hg.
  destruct (list_remove Player.eq_dec p (Channel.players c)); reflexivity.
Qed.

Lemma remove_keeps_members_when_absent (c : Channel.t) (p : Player.t) :
  ~ In p (Channel.players c) ->
  Channel.players (Channel.self' (Channel.remove p c)) = Channel.players c.
Proof.
  intros Habs. destruct (takes_deletion_branch c) eqn:Hg.
  - rewrite remove_deleting by exact Hg. reflexivity.
  - rewrite remove_plain by exact Hg.
    rewrite list_remove_absent by exact Habs. reflexivity.
Qed.

Lemma remove_absent_raises (c : Channel.t) (p : Player.t) :
  ~ In p (Channel.players c) ->
  takes_deletion_branch c = false ->
  Channel.remove p c = Channel.mkRun (Channel.Raised Channel.ValueError) c [].
Proof.
  intros Habs Hg. rewrite remove_plain by exact Hg.
  rewrite list_remove_absent by exact Habs. reflexivity.
Qed.

(** ** Leaving a channel *)

(** C1: on an instance channel whose member list has exactly one entry, a
    call of [remove] returns normally and asks the global channel list to
    remove this very channel exactly once: the log of the call is that single
    request. *)
Theorem remove_last_of_instance_requests_deletion
    (c : Channel.t) (p : Player.t) :
  Channel.instance c = true ->
  length (Channel.players c) = 1 ->
  Channel.result (Channel.remove p c) = Channel.Returned tt /\
  Channel.emitted (Channel.remove p c) = [Channel.ChannelsRemove c] /\
  removal_requests (Channel.emitted (Channel.remove p c)) = 1.
Proof.
  intros Hi Hl.
  rewrite remove_deleting by (apply deletion_guard; split; assumption).
  cbn. repeat split.
Qed.

Lemma remove_last_of_instance_requests_deletion_witness :
  Channel.instance (lobby true [alice]) = true /\
  length (Channel.players (lobby true [alice])) = 1 /\
  Channel.emitted (Channel.remove alice (lobby true [alice]))
  = [Channel.ChannelsRemove (lobby true [alice])].
Proof.
  split; [reflexivity | split; [reflexivity|]].
  apply (remove_last_of_instance_requests_deletion (lobby true [alice]) alice);
    reflexivity.
Defined.

(** C9: when [remove] takes the deletion branch (instance channel, exactly
    one member) the channel object is left as it was: the member list is the
    same list, the session named in the call is still in it if it was, and
    the only thing done is the request to the global channel list. *)
Theorem remove_deletion_branch_keeps_members
    (c : Channel.t) (p : Player.t) :
  Channel.instance c = true ->
  length (Channel.players c) = 1 ->
  Channel.players (Channel.self' (Channel.remove p c)) = Channel.players c /\
  Channel.self' (Channel.remove p c) = c /\
  (In p (Channel.players c) ->
   In p (Channel.players (Channel.self' (Channel.remove p c)))) /\
  Channel.emitted (Channel.remove p c) = [Channel.ChannelsRemove c].
Proof.
  intros Hi Hl.
  rewrite remove_deleting by (apply deletion_guard; split; assumption).
  cbn. repeat split. intros Hin. exact Hin.
Qed.

Lemma remove_deletion_branch_keeps_members_witness :
  Channel.instance (lobby true [bob]) = true /\
  length (Channel.players (lobby true [bob])) = 1 /\
  Channel.players (Channel.self' (Channel.remove bob (lobby true [bob])))
  = [bob].
Proof.
  split; [reflexivity | split; [reflexivity|]].
  apply (remove_deletion_branch_keeps_members (lobby true [bob]) bob);
    reflexivity.
Defined.

(** C10: on an instance channel with exactly one member, [remove] asks for
    the channel's removal whatever session it is given, a session that is not
    the member included, and returns without an error; the run is the same
    for any two sessions.  In every state a removal is requested exactly when
    the list has length one and the instance flag is set. *)
Theorem remove_deletion_ignores_membership
    (c : Channel.t) (p q : Player.t) :
  (Channel.instance c = true ->
   length (Channel.players c) = 1 ->
   Channel.remove p c
   = Channel.mkRun (Channel.Returned tt) c [Channel.ChannelsRemove c] /\
   Channel.remove p c = Channel.remove q c) /\
  (Channel.instance c = true ->
   length (Channel.players c) = 1 ->
   ~ In p (Channel.players c) ->
   Channel.result (Channel.remove p c) = Channel.Returned tt /\
   Channel.emitted (Channel.remove p c) = [Channel.ChannelsRemove c]) /\
  (In (Channel.ChannelsRemove c) (Channel.emitted (Channel.remove p c)) <->
   length (Channel.players c) = 1 /\ Channel.instance c = true).
Proof.
  split; [|split].
  - intros Hi Hl.
    rewrite !remove_deleting by (apply deletion_guard; split; assumption).
    split; reflexivity.
  - intros Hi Hl _.
    rewrite remove_deleting by (apply deletion_guard; split; assumption).
    split; reflexivity.
  - rewrite <- deletion_guard. destruct (takes_deletion_branch c) eqn:Hg.
    + rewrite remove_deleting by exact Hg. cbn. tauto.
    + rewrite remove_plain by exact Hg.
      destruct (list_remove Player.eq_dec p (Channel.players c)); cbn;
        split; (tauto || discriminate).
Qed.

Lemma remove_deletion_ignores_membership_witness :
  ~ In bob (Channel.players (lobby true [alice])) /\
  Channel.result (Channel.remove bob (lobby true [alice]))
  = Channel.Returned tt /\
  Channel.emitted (Channel.remove bob (lobby true [alice]))
  = [Channel.ChannelsRemove (lobby true [alice])].
Proof.
  assert (Habs : ~ In bob (Channel.players (lobby true [alice]))).
  { cbn. intros [H|[]]. discriminate H. }
  split; [exact Habs|].
  apply (remove_deletion_ignores_membership (lobby true [alice]) bob bob);
    [reflexivity | reflexivity | exact Habs].
Defined.

(** C6: on a channel that is not an instance and whose only member is [p],
    [remove p] returns normally, takes [p] out, asks nothing of the global
    channel list, and [basic_info] then reports no member, with the name and
    the topic as before. *)
Theorem remove_last_of_plain_channel (c : Channel.t) (p : Player.t) :
  Channel.instance c = false ->
  Channel.players c = [p] ->
  Channel.result (Channel.remove p c) = Channel.Returned tt /\
  Channel.emitted (Channel.remove p c) = [] /\
  Channel.players (Channel.self' (Channel.remove p c)) = [] /\
  Channel.self' (Channel.remove p c) = Channel.set_players c [] /\
  Channel.basic_info (Channel.self' (Channel.remove p c))
  = (Channel.name c, Channel.topic c, 0).
Proof.
  intros Hi Hp.
  assert (Hg : takes_deletion_branch c = false).
  { unfold takes_deletion_branch. rewrite Hi. apply andb_false_r. }
  rewrite remove_plain by exact Hg.
  rewrite Hp, list_remove_one. cbn. repeat split.
Qed.

Lemma remove_last_of_plain_channel_witness :
  Channel.instance (lobby false [carol]) = false /\
  Channel.players (lobby false [carol]) = [carol] /\
  Channel.basic_info
    (Channel.self' (Channel.remove carol (lobby false [carol])))
  = ("#multiplayer", "lobby chat", 0).
Proof.
  split; [reflexivity | split; [reflexivity|]].
  apply (remove_last_of_plain_channel (lobby false [carol]) carol);
    reflexivity.
Defined.

(** C2: a leave that names an absent session.  On an instance channel whose
    only member is alice, [remove bob] neither raises nor does nothing: it
    returns normally after asking the global channel list to remove the
    channel, alice still being a member. *)
Theorem remove_absent_from_instance_deletes :
  ~ In bob (Channel.players (lobby true [alice])) /\
  In alice (Channel.players (lobby true [alice])) /\
  Channel.remove bob (lobby true [alice])
  = Channel.mkRun (Channel.Returned tt) (lobby true [alice])
      [Channel.ChannelsRemove (lobby true [alice])].
Proof.
  split; [|split].
  - cbn. intros [H|[]]. discriminate H.
  - cbn. left. reflexivity.
  - reflexivity.
Qed.

(** ** The display name *)

(** C4: the [name] property is "#spectator" when [_name] starts with
    "#spec_", "#multiplayer" when it starts with "#multi_", and [_name]
    itself otherwise; so "#spec_42", "#multi_7" and "#general" display as
    "#spectator", "#multiplayer" and "#general".  It reads nothing but
    [_name]: channels with the same [_name] have the same [name]. *)
Theorem name_aliases_instance_prefixes (c : Channel.t) :
  ((exists rest, Channel._name c = ("#spec_" ++ rest)%string) ->
   Channel.name c = "#spectator") /\
  ((exists rest, Channel._name c = ("#multi_" ++ rest)%string) ->
   Channel.name c = "#multiplayer") /\
  (~ (exists rest, Channel._name c = ("#spec_" ++ rest)%string) ->
   ~ (exists rest, Channel._name c = ("#multi_" ++ rest)%string) ->
   Channel.name c = Channel._name c) /\
  (Channel._name c = "#spec_42" -> Channel.name c = "#spectator") /\
  (Channel._name c = "#multi_7" -> Channel.name c = "#multiplayer") /\
  (Channel._name c = "#general" -> Channel.name c = "#general") /\
  (forall c', Channel._name c' = Channel._name c ->
              Channel.name c' = Channel.name c).
Proof.
  unfold Channel.name. repeat split.
  - intros H. apply startswith_iff in H. rewrite H. reflexivity.
  - intros [rest H]. rewrite H. reflexivity.
  - intros H1 H2. apply startswith_false in H1, H2.
    rewrite H1, H2. reflexivity.
  - intros ->. reflexivity.
  - intros ->. reflexivity.
  - intros ->. reflexivity.
  - intros c' ->. reflexivity.
Qed.

Lemma name_aliases_instance_prefixes_witness :
  Channel.name (Channel.__init__ "#spec_42" "" 1 1 true true) = "#spectator"
  /\ Channel.name (lobby true []) = "#multiplayer"
  /\ Channel.name (Channel.__init__ "#general" "" 1 1 true false) = "#general".
Proof.
  split; [|split].
  - apply (proj1 (name_aliases_instance_prefixes
                    (Channel.__init__ "#spec_42" "" 1 1 true true))).
    exists "42". reflexivity.
  - apply (proj1 (proj2 (name_aliases_instance_prefixes (lobby true [])))).
    exists "7". reflexivity.
  - apply (proj1 (proj2 (proj2 (name_aliases_instance_prefixes
                    (Channel.__init__ "#general" "" 1 1 true false))))).
    + intros [rest H]. discriminate H.
    + intros [rest H]. discriminate H.
Defined.

(** ** Joining a channel *)

Lemma append_run (c : Channel.t) (p : Player.t) :
  Channel.append p c
  = Channel.mkRun (Channel.Returned tt)
      (Channel.set_players c (Channel.players c ++ [p])) [].
Proof. reflexivity. Qed.

(** C3, as the code has it: [append] always puts the session at the end of
    the member list, so the list grows by one entry whether or not the
    session is already there.  A session already present is then present
    twice; the identities stay free of duplicates exactly when they were so
    before and the new identity was not among them. *)
Theorem append_always_adds_an_entry (c : Channel.t) (p : Player.t) :
  Channel.result (Channel.append p c) = Channel.Returned tt /\
  Channel.players (Channel.self' (Channel.append p c))
  = Channel.players c ++ [p] /\
  length (Channel.players (Channel.self' (Channel.append p c)))
  = S (length (Channel.players c)) /\
  (In p (Channel.players c) ->
   ~ NoDup (Channel.players (Channel.self' (Channel.append p c)))) /\
  (NoDup (identities (Channel.players (Channel.self' (Channel.append p c))))
   <-> NoDup (identities (Channel.players c)) /\
       ~ In (Player.id p) (identities (Channel.players c))).
Proof.
  rewrite append_run.
  cbn [Channel.result Channel.self' Channel.set_players Channel.players].
  split; [reflexivity | split; [reflexivity | split; [|split]]].
  - rewrite length_app. cbn. lia.
  - intros Hin Hnd. apply in_split in Hin. destruct Hin as (l1 & l2 & Heq).
    rewrite Heq, <- app_assoc in Hnd. apply NoDup_remove_2 in Hnd.
    apply Hnd. rewrite !in_app_iff. right. right. left. reflexivity.
  - unfold identities. rewrite map_app. cbn [map]. split.
    + intros Hnd. split.
      * apply NoDup_remove_1 in Hnd. rewrite app_nil_r in Hnd. exact Hnd.
      * apply NoDup_remove_2 in Hnd. rewrite app_nil_r in Hnd. exact Hnd.
    + intros [Hnd Hnew].
      apply NoDup_Add with (a := Player.id p)
                           (l := map Player.id (Channel.players c)).
      * rewrite <- (app_nil_r (map Player.id (Channel.players c))) at 1.
        apply Add_app.
      * split; assumption.
Qed.

Lemma append_always_adds_an_entry_witness :
  In alice (Channel.players (lobby false [alice; bob])) /\
  ~ NoDup (Channel.players
             (Channel.self' (Channel.append alice (lobby false [alice; bob])))).
Proof.
  assert (Hin : In alice (Channel.players (lobby false [alice; bob]))).
  { cbn. left. reflexivity. }
  split; [exact Hin|].
  apply (append_always_adds_an_entry (lobby false [alice; bob]) alice).
  exact Hin.
Defined.

(** C3, as the claim words it, fails: joining alice, who is the only member,
    leaves her in the list twice and the list one entry longer. *)
Lemma append_present_session_duplicates :
  In alice (Channel.players (lobby false [alice])) /\
  NoDup (identities (Channel.players (lobby false [alice]))) /\
  Channel.players (Channel.self' (Channel.append alice (lobby false [alice])))
  = [alice; alice] /\
  ~ (NoDup (identities (Channel.players
        (Channel.self' (Channel.append alice (lobby false [alice])))))
     /\ length (Channel.players
          (Channel.self' (Channel.append alice (lobby false [alice]))))
        = length (Channel.players (lobby false [alice]))).
Proof.
  split; [cbn; left; reflexivity|].
  split; [cbn; constructor; [intros [] | constructor]|].
  split; [reflexivity|].
  cbn. intros [_ H]. discriminate H.
Qed.

(** ** Fan-out *)

Lemma for_enqueue_run {A : Type} (skip : A -> bool)
    (ev : A -> Channel.event) (l : list A) (c : Channel.t) :
  Channel.for_ l (fun x =>
    if skip x then Channel.ret tt else Channel.call (ev x)) c
  = Channel.mkRun (Channel.Returned tt) c
      (map ev (filter (fun x => negb (skip x)) l)).
Proof.
  induction l as [|x l IH]; [reflexivity|].
  cbn [Channel.for_ filter]. unfold Channel.bind.
  destruct (skip x); cbn; rewrite IH; reflexivity.
Qed.

Lemma for_call_run {A : Type} (ev : Channel.t -> A -> Channel.event)
    (l : list A) (c : Channel.t) :
  Channel.for_ l (fun x =>
    Channel.bind Channel.get_self (fun c' => Channel.call (ev c' x))) c
  = Channel.mkRun (Channel.Returned tt) c (map (ev c) l).
Proof.
  induction l as [|x l IH]; [reflexivity|].
  cbn [Channel.for_ map]. unfold Channel.bind at 1.
  cbn. rewrite IH. reflexivity.
Qed.

Lemma enqueue_run (data : bytes) (immune : list Z) (c : Channel.t) :
  Channel.enqueue data immune c
  = Channel.mkRun (Channel.Returned tt) c
      (map (fun p => Channel.PlayerEnqueue p data)
         (filter (fun p => negb (existsb (Z.eqb (Player.id p)) immune))
            (Channel.players c))).
Proof.
  unfold Channel.enqueue, Channel.bind at 1. cbn.
  rewrite for_enqueue_run. reflexivity.
Qed.

Lemma filter_keep_all {A : Type} (l : list A) :
  filter (fun _ => true) l = l.
Proof.
  induction l as [|x l IH]; [reflexivity|]. cbn. f_equal. exact IH.
Qed.

Lemma filter_other_identities (client : Player.t) (l : list Player.t) :
  (forall q, In q l -> Player.id q = Player.id client -> q = client) ->
  filter (fun p => negb (Z.eqb (Player.id p) (Player.id client))) l
  = List.remove Player.eq_dec client l.
Proof.
  induction l as [|p l IH]; intros Hid; [reflexivity|].
  cbn [filter List.remove].
  assert (IH' : filter
            (fun p0 => negb (Z.eqb (Player.id p0) (Player.id client))) l
          = List.remove Player.eq_dec client l).
  { apply IH. intros q Hq. apply Hid. right. exact Hq. }
  destruct (Player.eq_dec client p) as [<-|Hne].
  - rewrite Z.eqb_refl. cbn. exact IH'.
  - destruct (Z.eqb_spec (Player.id p) (Player.id client)) as [He|_].
    + exfalso. apply Hne. symmetry. apply Hid; [left; reflexivity | exact He].
    + cbn. f_equal. exact IH'.
Qed.

Section FanOut.
Variable sendMessage : string -> string -> string -> Z -> bytes.

(** C5: [send] makes one [enqueue] call per member, in the order of the
    member list, each with the packet stamped with the sender and the
    channel's display name.  With [to_self] false the members whose session
    identity is the sender's are passed over; with [to_self] true every
    member is served, the sender included.  The channel is left as it was.
    When no other member shares the sender's identity, the members passed
    over are exactly the occurrences of the sender. *)
Theorem send_reaches_members_in_order
    (c : Channel.t) (client : Player.t) (msg : string) :
  Channel.send sendMessage client msg false c
  = Channel.mkRun (Channel.Returned tt) c
      (map (fun p => Channel.PlayerEnqueue p (packet sendMessage c client msg))
         (filter (fun p => negb (Z.eqb (Player.id p) (Player.id client)))
            (Channel.players c))) /\
  Channel.send sendMessage client msg true c
  = Channel.mkRun (Channel.Returned tt) c
      (map (fun p => Channel.PlayerEnqueue p (packet sendMessage c client msg))
         (Channel.players c)) /\
  ((forall q, In q (Channel.players c) ->
              Player.id q = Player.id client -> q = client) ->
   Channel.emitted (Channel.send sendMessage client msg false c)
   = map (fun p => Channel.PlayerEnqueue p (packet sendMessage c client msg))
       (List.remove Player.eq_dec client (Channel.players c))).
Proof.
  assert (Hfalse :
    Channel.send sendMessage client msg false c
    = Channel.mkRun (Channel.Returned tt) c
        (map (fun p => Channel.PlayerEnqueue p (packet sendMessage c client msg))
           (filter (fun p => negb (Z.eqb (Player.id p) (Player.id client)))
              (Channel.players c)))).
  { unfold Channel.send, Channel.bind at 1. cbn [Channel.get_self
      Channel.result Channel.self' Channel.emitted].
    rewrite enqueue_run. cbn. f_equal. f_equal.
    apply filter_ext. intros p. cbn. rewrite orb_false_r. reflexivity. }
  split; [exact Hfalse | split].
  - unfold Channel.send, Channel.bind at 1. cbn [Channel.get_self
      Channel.result Channel.self' Channel.emitted].
    rewrite enqueue_run. cbn. f_equal. f_equal.
    apply filter_keep_all.
  - intros Hid. rewrite Hfalse. cbn [Channel.emitted]. f_equal.
    apply filter_other_identities. exact Hid.
Qed.

(** C8: [send_selective] makes one [enqueue] call per entry of [targets], in
    the order given, and nothing else; the channel is left as it was, and the
    calls are the same whatever the member list holds. *)
Theorem send_selective_reaches_targets
    (c : Channel.t) (client : Player.t) (msg : string)
    (targets : list Player.t) :
  Channel.send_selective sendMessage client msg targets c
  = Channel.mkRun (Channel.Returned tt) c
      (map (fun p => Channel.PlayerEnqueue p (packet sendMessage c client msg)) targets)
  /\
  length (Channel.emitted
            (Channel.send_selective sendMessage client msg targets c))
  = length targets /\
  (forall members,
     Channel.emitted
       (Channel.send_selective sendMessage client msg targets
          (Channel.set_players c members))
     = Channel.emitted
         (Channel.send_selective sendMessage client msg targets c)).
Proof.
  assert (Hrun : forall c0,
    Channel.send_selective sendMessage client msg targets c0
    = Channel.mkRun (Channel.Returned tt) c0
        (map (fun p => Channel.PlayerEnqueue p (packet sendMessage c0 client msg))
           targets)).
  { intros c0. unfold Channel.send_selective.
    exact (for_call_run
             (fun c' p => Channel.PlayerEnqueue p (packet sendMessage c' client msg))
             targets c0). }
  split; [apply Hrun | split].
  - rewrite Hrun. cbn. apply length_map.
  - intros members. rewrite !Hrun. reflexivity.
Qed.
End FanOut.

Lemma send_reaches_members_in_order_witness :
  (forall q, In q (Channel.players (lobby false [alice; bob; carol])) ->
             Player.id q = Player.id bob -> q = bob) /\
  Channel.emitted
    (Channel.send plain_sendMessage bob "hi" false
       (lobby false [alice; bob; carol]))
  = [Channel.PlayerEnqueue alice
       (list_byte_of_string "#multiplayer bob: hi");
     Channel.PlayerEnqueue carol
       (list_byte_of_string "#multiplayer bob: hi")].
Proof.
  assert (Hid : forall q,
            In q (Channel.players (lobby false [alice; bob; carol])) ->
            Player.id q = Player.id bob -> q = bob).
  { cbn. intros q [<-|[<-|[<-|[]]]] H; (reflexivity || discriminate H). }
  split; [exact Hid|].
  exact (proj2 (proj2 (send_reaches_members_in_order plain_sendMessage
           (lobby false [alice; bob; carol]) bob "hi")) Hid).
Defined.

(** ** Replaying joins and leaves *)

Lemma replay_cons (o : Channel.op) (ops : list Channel.op) (c : Channel.t) :
  Channel.replay (o :: ops) c
  = match Channel.result (Channel.step o c) with
    | Channel.Returned _ =>
        Channel.mkRun
          (Channel.result
             (Channel.replay ops (Channel.self' (Channel.step o c))))
          (Channel.self'
             (Channel.replay ops (Channel.self' (Channel.step o c))))
          (Channel.emitted (Channel.step o c)
           ++ Channel.emitted
                (Channel.replay ops (Channel.self' (Channel.step o c))))
    | Channel.Raised e =>
        Channel.mkRun (Channel.Raised e)
          (Channel.self' (Channel.step o c))
          (Channel.emitted (Channel.step o c))
    end.
Proof. reflexivity. Qed.

Lemma plain_leave_run (c : Channel.t) (p : Player.t) :
  plain_leave (c, Channel.Leave p) ->
  exists l,
    Channel.remove p c
    = Channel.mkRun (Channel.Returned tt) (Channel.set_players c l) []
    /\ length (Channel.players c) = S (length l).
Proof.
  intros [Hin Hg]. cbn [fst] in Hin, Hg.
  destruct (list_remove_present Player.eq_dec p (Channel.players c) Hin)
    as (l & Hl & Hlen).
  exists l. split; [|exact Hlen].
  rewrite remove_plain by exact Hg. rewrite Hl. reflexivity.
Qed.

(** From any channel: a replay in which every leave names a present session
    and none deletes the channel returns normally, asks nothing of the
    global channel list, and changes the size by joins minus leaves. *)
Lemma replay_balance (ops : list Channel.op) :
  forall c : Channel.t,
    Forall plain_leave (history c ops) ->
    Channel.result (Channel.replay ops c) = Channel.Returned tt /\
    Channel.emitted (Channel.replay ops c) = [] /\
    length (Channel.players (Channel.self' (Channel.replay ops c)))
    + length (departed ops)
    = length (Channel.players c) + length (joined ops).
Proof.
  induction ops as [|o ops IH]; intros c Hh.
  - cbn. repeat split.
  - cbn [history] in Hh. inversion Hh as [|x xs Ho Hrest]; subst x xs.
    rewrite replay_cons. destruct o as [p|p]; cbn [Channel.step] in *.
    + rewrite append_run in *. cbn [Channel.result Channel.self'
        Channel.emitted] in *.
      destruct (IH _ Hrest) as (Hres & Hlog & Hlen).
      rewrite Hres, Hlog. cbn [Channel.result Channel.self' Channel.emitted
        joined departed app length].
      repeat split. rewrite Hlen. cbn [Channel.set_players Channel.players].
      rewrite length_app. cbn. lia.
    + destruct (plain_leave_run c p Ho) as (l & Hrun & Hl).
      rewrite Hrun in *. cbn [Channel.result Channel.self'
        Channel.emitted] in *.
      destruct (IH _ Hrest) as (Hres & Hlog & Hlen).
      rewrite Hres, Hlog. cbn [Channel.result Channel.self' Channel.emitted
        joined departed app length].
      repeat split. cbn [Channel.set_players Channel.players] in Hlen. lia.
Qed.

(** C7: replay, from a freshly constructed channel, a sequence of joins and
    leaves in which no session is joined twice, every leave names a session
    present at that moment and no leave takes the deletion branch.  The
    replay returns normally and the member list then has as many entries as
    there were joins minus leaves. *)
Theorem replay_size_is_joins_minus_leaves
    (name topic : string) (read write : Z) (auto_join instance : bool)
    (ops : list Channel.op) :
  NoDup (joined ops) ->
  Forall plain_leave
    (history (Channel.__init__ name topic read write auto_join instance)
       ops) ->
  Channel.result
    (Channel.replay ops
       (Channel.__init__ name topic read write auto_join instance))
  = Channel.Returned tt /\
  Z.of_nat (length (Channel.players (Channel.self'
    (Channel.replay ops
       (Channel.__init__ name topic read write auto_join instance)))))
  = (Z.of_nat (length (joined ops)) - Z.of_nat (length (departed ops)))%Z.
Proof.
  intros _ Hh. destruct (replay_balance ops _ Hh) as (Hres & _ & Hlen).
  split; [exact Hres|]. cbn [Channel.__init__ Channel.players length] in Hlen.
  lia.
Qed.

Lemma replay_size_is_joins_minus_leaves_witness :
  Z.of_nat (length (Channel.players (Channel.self'
    (Channel.replay
       [Channel.Join alice; Channel.Join bob; Channel.Leave alice;
        Channel.Join carol; Channel.Leave carol]
       (Channel.__init__ "#multi_7" "lobby chat" 1 1 false true)))))
  = (3 - 2)%Z.
Proof.
  apply (replay_size_is_joins_minus_leaves "#multi_7" "lobby chat" 1 1
           false true
           [Channel.Join alice; Channel.Join bob; Channel.Leave alice;
            Channel.Join carol; Channel.Leave carol]).
  - cbn. repeat constructor; cbn; intuition discriminate.
  - cbn [history]. repeat (apply Forall_cons; [cbn; auto |]).
    apply Forall_nil.
Defined.

(** ** More on the Python primitives *)

Section ListRemoveShape.
Context {A : Type} (eq_dec : forall x y : A, {x = y} + {x <> y}).

Lemma list_remove_split (x : A) (l l' : list A) :
  list_remove eq_dec x l = Some l' ->
  exists l1 l2, l = l1 ++ x :: l2 /\ ~ In x l1 /\ l' = l1 ++ l2.
Proof.
  revert l'. induction l as [|y l IH]; intros l' H; cbn [list_remove] in H.
  - discriminate H.
  - destruct (eq_dec x y) as [<-|Hne].
    + injection H as <-. exists [], l. repeat split. intros [].
    + destruct (list_remove eq_dec x l) as [r|] eqn:Hr; [|discriminate H].
      cbn in H. injection H as <-.
      destruct (IH r eq_refl) as (l1 & l2 & -> & Hnot & ->).
      exists (y :: l1), l2. repeat split.
      intros [Hy|Hin]; [congruence | exact (Hnot Hin)].
Qed.

Lemma list_remove_some_in (x : A) (l l' : list A) :
  list_remove eq_dec x l = Some l' -> In x l /\ length l = S (length l').
Proof.
  intros H. destruct (list_remove_split x l l' H) as (l1 & l2 & -> & _ & ->).
  split.
  - apply in_elt.
  - rewrite !length_app. cbn. lia.
Qed.

Lemma list_remove_appended (x : A) (l : list A) :
  ~ In x l -> list_remove eq_dec x (l ++ [x]) = Some l.
Proof.
  induction l as [|y l IH]; intros Hx; cbn [app list_remove].
  - destruct (eq_dec x x); [reflexivity | congruence].
  - destruct (eq_dec x y) as [->|_].
    + exfalso. apply Hx. left. reflexivity.
    + rewrite IH; [reflexivity|]. intros Hin. apply Hx. right. exact Hin.
Qed.

Lemma list_contains_iff (x : A) (l : list A) :
  list_contains eq_dec x l = true <-> In x l.
Proof.
  unfold list_contains. destruct (in_dec eq_dec x l); split; intros H;
    (assumption || reflexivity || discriminate || contradiction).
Qed.
End ListRemoveShape.

Lemma set_players_same (c : Channel.t) :
  Channel.set_players c (Channel.players c) = c.
Proof. destruct c. reflexivity. Qed.

Lemma is_immune_iff (immune : list Z) (p : Player.t) :
  is_immune immune p = true <-> In (Player.id p) immune.
Proof.
  unfold is_immune. rewrite existsb_exists. split.
  - intros (z & Hz & He). apply Z.eqb_eq in He. rewrite He. exact Hz.
  - intros Hin. exists (Player.id p). split; [exact Hin | apply Z.eqb_refl].
Qed.

Lemma remove_cases (c : Channel.t) (p : Player.t) :
  (takes_deletion_branch c = true /\
   Channel.remove p c
   = Channel.mkRun (Channel.Returned tt) c [Channel.ChannelsRemove c]) \/
  (takes_deletion_branch c = false /\ ~ In p (Channel.players c) /\
   Channel.remove p c
   = Channel.mkRun (Channel.Raised Channel.ValueError) c []) \/
  (takes_deletion_branch c = false /\
   exists l1 l2,
     Channel.players c = l1 ++ p :: l2 /\ ~ In p l1 /\
     Channel.remove p c
     = Channel.mkRun (Channel.Returned tt)
         (Channel.set_players c (l1 ++ l2)) []).
Proof.
  destruct (takes_deletion_branch c) eqn:Hg.
  - left. split; [reflexivity | apply remove_deleting; exact Hg].
  - right. rewrite remove_plain by exact Hg.
    destruct (list_remove Player.eq_dec p (Channel.players c)) as [l|] eqn:Hl.
    + right. split; [reflexivity|].
      destruct (list_remove_split Player.eq_dec p _ l Hl)
        as (l1 & l2 & Heq & Hnot & ->).
      exists l1, l2. repeat split; assumption.
    + left. split; [reflexivity|]. split; [|reflexivity].
      intros Hin.
      destruct (list_remove_present Player.eq_dec p _ Hin) as (l' & Hl' & _).
      congruence.
Qed.

Lemma deletion_guard_false (c : Channel.t) :
  takes_deletion_branch c = false <->
  ~ (length (Channel.players c) = 1 /\ Channel.instance c = true).
Proof.
  rewrite <- deletion_guard.
  destruct (takes_deletion_branch c); split; congruence.
Qed.

(** ** Error behaviour and shape of [remove] *)

(** X1: [remove] raises exactly when the session is absent and the deletion
    branch is not taken, the exception is then [ValueError], and a call that
    raises leaves the channel as it was and has made no call on a
    collaborator. *)
Theorem remove_raises_iff_absent (c : Channel.t) (p : Player.t) :
  (Channel.result (Channel.remove p c) = Channel.Raised Channel.ValueError
   <-> ~ In p (Channel.players c) /\
       ~ (length (Channel.players c) = 1 /\ Channel.instance c = true)) /\
  (forall e, Channel.result (Channel.remove p c) = Channel.Raised e ->
     e = Channel.ValueError /\
     Channel.self' (Channel.remove p c) = c /\
     Channel.emitted (Channel.remove p c) = []).
Proof.
  rewrite <- deletion_guard_false.
  destruct (remove_cases c p)
    as [[Hg ->] | [(Hg & Habs & ->) | (Hg & l1 & l2 & Heq & Hnot & ->)]];
    cbn [Channel.result Channel.self' Channel.emitted].
  - split.
    + split; [discriminate | intros [_ H]; congruence].
    + intros e H. discriminate H.
  - split.
    + split; [intros _; split; assumption | reflexivity].
    + intros e _. destruct e. repeat split.
  - split.
    + split; [discriminate|]. intros [Habs _]. exfalso. apply Habs.
      rewrite Heq. apply in_elt.
    + intros e H. discriminate H.
Qed.

Lemma remove_raises_iff_absent_witness :
  Channel.result (Channel.remove bob (lobby false [alice]))
  = Channel.Raised Channel.ValueError.
Proof.
  apply (proj1 (remove_raises_iff_absent (lobby false [alice]) bob)).
  split.
  - cbn. intros [H|[]]. discriminate H.
  - cbn. intros [_ H]. discriminate H.
Defined.

(** X2: on a channel without members, [remove] raises [ValueError] for
    every session, whether or not the channel is an instance, and changes
    nothing. *)
Theorem remove_from_empty_raises (c : Channel.t) (p : Player.t) :
  Channel.players c = [] ->
  Channel.remove p c
  = Channel.mkRun (Channel.Raised Channel.ValueError) c [].
Proof.
  intros He. apply remove_absent_raises.
  - rewrite He. intros [].
  - unfold takes_deletion_branch. rewrite He. reflexivity.
Qed.

Lemma remove_from_empty_raises_witness :
  Channel.remove alice (Channel.__init__ "#spec_42" "" 1 1 false true)
  = Channel.mkRun (Channel.Raised Channel.ValueError)
      (Channel.__init__ "#spec_42" "" 1 1 false true) [].
Proof.
  apply (remove_from_empty_raises
           (Channel.__init__ "#spec_42" "" 1 1 false true) alice).
  reflexivity.
Defined.

(** X3: outside the deletion branch, [remove] of a present session takes
    out its first occurrence only: the entries before it and after it stay,
    in their order, later occurrences included; nothing else of the channel
    changes and no collaborator is called. *)
Theorem remove_drops_first_occurrence (c : Channel.t) (p : Player.t) :
  ~ (length (Channel.players c) = 1 /\ Channel.instance c = true) ->
  In p (Channel.players c) ->
  exists l1 l2,
    Channel.players c = l1 ++ p :: l2 /\ ~ In p l1 /\
    Channel.remove p c
    = Channel.mkRun (Channel.Returned tt)
        (Channel.set_players c (l1 ++ l2)) [].
Proof.
  intros Hg Hin. apply deletion_guard_false in Hg.
  destruct (remove_cases c p)
    as [[Hg' _] | [(_ & Habs & _) | (_ & l1 & l2 & Heq & Hnot & Hrun)]].
  - congruence.
  - contradiction.
  - exists l1, l2. repeat split; assumption.
Qed.

Lemma remove_drops_first_occurrence_witness :
  exists l1 l2,
    Channel.players (lobby true [bob; alice; bob]) = l1 ++ bob :: l2 /\
    ~ In bob l1 /\
    Channel.remove bob (lobby true [bob; alice; bob])
    = Channel.mkRun (Channel.Returned tt)
        (Channel.set_players (lobby true [bob; alice; bob]) (l1 ++ l2)) [].
Proof.
  apply (remove_drops_first_occurrence (lobby true [bob; alice; bob]) bob).
  - cbn. intros [H _]. discriminate H.
  - cbn. left. reflexivity.
Defined.

(** X4: a member list without duplicates is still without duplicates after
    [remove], whatever its outcome; and when such a call does not take the deletion
    branch, the session is not a member afterwards. *)
Theorem remove_keeps_members_distinct (c : Channel.t) (p : Player.t) :
  NoDup (Channel.players c) ->
  NoDup (Channel.players (Channel.self' (Channel.remove p c))) /\
  (~ (length (Channel.players c) = 1 /\ Channel.instance c = true) ->
   Channel.__contains__ (Channel.self' (Channel.remove p c)) p = false).
Proof.
  intros Hnd. rewrite <- deletion_guard_false.
  assert (Hno : forall l, ~ In p l ->
            list_contains Player.eq_dec p l = false).
  { intros l Hl. destruct (list_contains Player.eq_dec p l) eqn:E;
      [|reflexivity]. apply list_contains_iff in E. contradiction. }
  unfold Channel.__contains__.
  destruct (remove_cases c p)
    as [[Hg ->] | [(Hg & Habs & ->) | (Hg & l1 & l2 & Heq & Hnot & ->)]];
    cbn [Channel.self' Channel.set_players Channel.players].
  - split; [exact Hnd | congruence].
  - split; [exact Hnd | intros _; apply Hno; exact Habs].
  - rewrite Heq in Hnd. split.
    + apply NoDup_remove_1 in Hnd. exact Hnd.
    + intros _. apply Hno. apply NoDup_remove_2 in Hnd. exact Hnd.
Qed.

Lemma remove_keeps_members_distinct_witness :
  NoDup (Channel.players (lobby false [alice; bob; carol])) /\
  Channel.__contains__
    (Channel.self' (Channel.remove bob (lobby false [alice; bob; carol])))
    bob = false.
Proof.
  assert (Hnd : NoDup (Channel.players (lobby false [alice; bob; carol]))).
  { cbn. repeat constructor; cbn; intuition discriminate. }
  split; [exact Hnd|].
  apply (proj2 (remove_keeps_members_distinct
                  (lobby false [alice; bob; carol]) bob Hnd)).
  cbn. intros [H _]. discriminate H.
Defined.

(** ** How [append] and [remove] compose *)

(** X5: joining a session that is not a member and then making it leave.
    On an instance channel without members the leave finds one member and
    takes the deletion branch: the removal of the channel is requested and
    the session stays in the list.  In every other case the leave undoes the
    join: the channel is exactly as before and no collaborator is called. *)
Theorem append_then_remove (c : Channel.t) (p : Player.t) :
  ~ In p (Channel.players c) ->
  (Channel.players c = [] /\ Channel.instance c = true ->
   Channel.remove p (Channel.self' (Channel.append p c))
   = Channel.mkRun (Channel.Returned tt) (Channel.set_players c [p])
       [Channel.ChannelsRemove (Channel.set_players c [p])]) /\
  (~ (Channel.players c = [] /\ Channel.instance c = true) ->
   Channel.remove p (Channel.self' (Channel.append p c))
   = Channel.mkRun (Channel.Returned tt) c []).
Proof.
  intros Habs. rewrite append_run. cbn [Channel.self']. split.
  - intros [He Hi]. rewrite He. cbn [app].
    apply remove_deleting. unfold takes_deletion_branch. cbn. exact Hi.
  - intros Hne.
    assert (Hg : takes_deletion_branch
                   (Channel.set_players c (Channel.players c ++ [p]))
                 = false).
    { apply deletion_guard_false. cbn [Channel.set_players Channel.players
        Channel.instance]. intros [Hl Hi]. apply Hne. split; [|exact Hi].
      rewrite length_app in Hl. cbn in Hl.
      destruct (Channel.players c); [reflexivity | cbn in Hl; lia]. }
    rewrite remove_plain by exact Hg.
    cbn [Channel.set_players Channel.players].
    rewrite list_remove_appended by exact Habs.
    destruct c. reflexivity.
Qed.

Lemma append_then_remove_witness :
  Channel.remove bob
    (Channel.self' (Channel.append bob (lobby true [alice])))
  = Channel.mkRun (Channel.Returned tt) (lobby true [alice]) [].
Proof.
  assert (Habs : ~ In bob (Channel.players (lobby true [alice]))).
  { cbn. intros [H|[]]. discriminate H. }
  apply (proj2 (append_then_remove (lobby true [alice]) bob Habs)).
  intros [H _]. discriminate H.
Defined.

(** X6: after [append p] the sessions the channel contains are [p] and the
    ones it contained before. *)
Theorem append_then_contains (c : Channel.t) (p q : Player.t) :
  Channel.__contains__ (Channel.self' (Channel.append p c)) q = true
  <-> q = p \/ Channel.__contains__ c q = true.
Proof.
  rewrite append_run. unfold Channel.__contains__.
  cbn [Channel.self' Channel.set_players Channel.players].
  rewrite !list_contains_iff, in_app_iff. cbn [In]. split.
  - intros [H|[H|[]]]; [right; exact H | left; symmetry; exact H].
  - intros [H|H]; [right; left; symmetry; exact H | left; exact H].
Qed.

(** ** Invariants of sequences of joins and leaves *)

Lemma set_players_twice (c : Channel.t) (l l' : list Player.t) :
  Channel.set_players (Channel.set_players c l) l' = Channel.set_players c l'.
Proof. reflexivity. Qed.

Lemma step_outcome (o : Channel.op) (c : Channel.t) :
  exists l,
    Channel.self' (Channel.step o c) = Channel.set_players c l /\
    (Channel.instance c = true -> Channel.players c <> [] -> l <> []) /\
    (forall e, In e (Channel.emitted (Channel.step o c)) ->
       e = Channel.ChannelsRemove c /\
       length (Channel.players c) = 1 /\ Channel.instance c = true).
Proof.
  destruct o as [p|p]; cbn [Channel.step].
  - rewrite append_run. exists (Channel.players c ++ [p]).
    cbn [Channel.self' Channel.emitted]. repeat split.
    + intros _ _ H. apply app_eq_nil in H. destruct H as [_ H].
      discriminate H.
    + destruct H.
    + destruct H.
    + destruct H.
  - destruct (remove_cases c p)
      as [[Hg ->] | [(Hg & Habs & ->) | (Hg & l1 & l2 & Heq & Hnot & ->)]];
      cbn [Channel.self' Channel.emitted].
    + exists (Channel.players c). rewrite set_players_same.
      apply deletion_guard in Hg. split; [reflexivity | split].
      * intros _ H. exact H.
      * intros e [<-|[]]. split; [reflexivity | exact Hg].
    + exists (Channel.players c). rewrite set_players_same.
      split; [reflexivity | split].
      * intros _ H. exact H.
      * intros e [].
    + exists (l1 ++ l2). split; [reflexivity | split].
      * intros Hi _ He. apply deletion_guard_false in Hg. apply Hg.
        split; [|exact Hi]. rewrite Heq, length_app. cbn.
        apply (f_equal (@length _)) in He. rewrite length_app in He.
        cbn in He. lia.
      * intros e [].
Qed.

Lemma replay_outcome (ops : list Channel.op) :
  forall c : Channel.t,
  exists l,
    Channel.self' (Channel.replay ops c) = Channel.set_players c l /\
    (Channel.instance c = true -> Channel.players c <> [] -> l <> []) /\
    (forall e, In e (Channel.emitted (Channel.replay ops c)) ->
       exists l', e = Channel.ChannelsRemove (Channel.set_players c l') /\
                  length l' = 1 /\ Channel.instance c = true).
Proof.
  induction ops as [|o ops IH]; intros c.
  - exists (Channel.players c). cbn. rewrite set_players_same.
    split; [reflexivity | split; [intros _ H; exact H | intros e []]].
  - rewrite replay_cons.
    destruct (step_outcome o c) as (l & Hself & Hne & Hlog).
    assert (Hlog' : forall e, In e (Channel.emitted (Channel.step o c)) ->
              exists l', e = Channel.ChannelsRemove (Channel.set_players c l')
                         /\ length l' = 1 /\ Channel.instance c = true).
    { intros e He. destruct (Hlog e He) as (-> & Hl & Hi).
      exists (Channel.players c). rewrite set_players_same.
      repeat split; assumption. }
    destruct (Channel.result (Channel.step o c)) as [[]|e0].
    + destruct (IH (Channel.self' (Channel.step o c)))
        as (l2 & Hself2 & Hne2 & Hlog2).
      rewrite Hself in Hself2, Hne2, Hlog2.
      cbn [Channel.self' Channel.emitted].
      exists l2. rewrite Hself, Hself2, set_players_twice.
      split; [reflexivity | split].
      * intros Hi Hc. apply Hne2; [exact Hi | exact (Hne Hi Hc)].
      * intros e He. apply in_app_or in He. destruct He as [He|He].
        -- exact (Hlog' e He).
        -- destruct (Hlog2 e He) as (l' & -> & Hl & Hi).
           exists l'. rewrite set_players_twice. repeat split; assumption.
    + cbn [Channel.self' Channel.emitted]. exists l.
      split; [exact Hself | split; [exact Hne | exact Hlog']].
Qed.

(** X7: whatever sequence of joins and leaves is replayed, and however it
    ends, only the member list of the channel can differ afterwards: the
    true name, topic, privileges and flags are those before, and so are the
    display name and the representation. *)
Theorem replay_keeps_attributes (ops : list Channel.op) (c : Channel.t) :
  Channel._name (Channel.self' (Channel.replay ops c)) = Channel._name c /\
  Channel.topic (Channel.self' (Channel.replay ops c)) = Channel.topic c /\
  Channel.read (Channel.self' (Channel.replay ops c)) = Channel.read c /\
  Channel.write (Channel.self' (Channel.replay ops c)) = Channel.write c /\
  Channel.auto_join (Channel.self' (Channel.replay ops c))
  = Channel.auto_join c /\
  Channel.instance (Channel.self' (Channel.replay ops c))
  = Channel.instance c /\
  Channel.name (Channel.self' (Channel.replay ops c)) = Channel.name c /\
  Channel.__repr__ (Channel.self' (Channel.replay ops c))
  = Channel.__repr__ c.
Proof.
  destruct (replay_outcome ops c) as (l & -> & _). repeat split.
Qed.

(** X8: an instance channel that has a member keeps at least one through
    every sequence of joins and leaves: [remove] never empties it. *)
Theorem instance_channel_never_emptied
    (ops : list Channel.op) (c : Channel.t) :
  Channel.instance c = true ->
  Channel.players c <> [] ->
  Channel.players (Channel.self' (Channel.replay ops c)) <> [].
Proof.
  intros Hi Hne. destruct (replay_outcome ops c) as (l & -> & Hl & _).
  cbn [Channel.set_players Channel.players]. exact (Hl Hi Hne).
Qed.

Lemma instance_channel_never_emptied_witness :
  Channel.players (Channel.self'
    (Channel.replay [Channel.Leave alice; Channel.Leave alice]
       (lobby true [alice]))) <> [].
Proof.
  apply (instance_channel_never_emptied
           [Channel.Leave alice; Channel.Leave alice] (lobby true [alice])).
  - reflexivity.
  - cbn. discriminate.
Defined.

(** X9: joins and leaves never call [enqueue] on a player.  Every call they
    make is a removal request for this channel, made on an instance channel
    at a moment when it has exactly one member; on a channel that is not an
    instance they make no call at all. *)
Theorem replay_requests_only_deletions
    (ops : list Channel.op) (c : Channel.t) :
  (forall e, In e (Channel.emitted (Channel.replay ops c)) ->
     exists c', e = Channel.ChannelsRemove c' /\
                Channel._name c' = Channel._name c /\
                length (Channel.players c') = 1 /\
                Channel.instance c' = true) /\
  (Channel.instance c = false -> Channel.emitted (Channel.replay ops c) = []).
Proof.
  destruct (replay_outcome ops c) as (l & _ & _ & Hlog). split.
  - intros e He. destruct (Hlog e He) as (l' & -> & Hl & Hi).
    exists (Channel.set_players c l'). repeat split; assumption.
  - intros Hi.
    destruct (Channel.emitted (Channel.replay ops c)) as [|e log];
      [reflexivity|].
    destruct (Hlog e (or_introl eq_refl)) as (_ & _ & _ & Hi').
    congruence.
Qed.

Lemma replay_requests_only_deletions_witness :
  Channel.emitted
    (Channel.replay [Channel.Join alice; Channel.Leave alice;
                     Channel.Join bob; Channel.Leave bob]
       (lobby false [])) = [].
Proof.
  apply (proj2 (replay_requests_only_deletions
                  [Channel.Join alice; Channel.Leave alice;
                   Channel.Join bob; Channel.Leave bob] (lobby false []))).
  reflexivity.
Defined.

(** ** The display name and the representation *)

Lemma append_closing_inj (a b : string) :
  (a ++ ">")%string = (b ++ ">")%string -> a = b.
Proof.
  revert b. induction a as [|x a IH]; intros [|y b] H; cbn in H.
  - reflexivity.
  - injection H as _ H. destruct b; discriminate H.
  - injection H as _ H. destruct a; discriminate H.
  - injection H as -> H. f_equal. apply IH. exact H.
Qed.

(** X10: a display name never starts with one of the two instance prefixes,
    so taking the display name is idempotent: a channel whose true name is
    another channel's display name displays under that same name. *)
Theorem name_is_idempotent (c : Channel.t) :
  startswith (Channel.name c) "#spec_" = false /\
  startswith (Channel.name c) "#multi_" = false /\
  (forall c', Channel._name c' = Channel.name c ->
              Channel.name c' = Channel.name c).
Proof.
  assert (H : startswith (Channel.name c) "#spec_" = false /\
              startswith (Channel.name c) "#multi_" = false).
  { unfold Channel.name.
    destruct (startswith (Channel._name c) "#spec_") eqn:H1;
      [split; reflexivity|].
    destruct (startswith (Channel._name c) "#multi_") eqn:H2;
      [split; reflexivity|].
    split; assumption. }
  destruct H as [H1 H2]. split; [exact H1 | split; [exact H2|]].
  intros c' Hc'. unfold Channel.name at 1. rewrite Hc', H1, H2. reflexivity.
Qed.

Lemma name_is_idempotent_witness :
  Channel.name (Channel.__init__ "#spectator" "" 1 1 true false)
  = Channel.name (Channel.__init__ "#spec_42" "" 1 1 true true).
Proof.
  apply (proj2 (proj2 (name_is_idempotent
           (Channel.__init__ "#spec_42" "" 1 1 true true)))).
  reflexivity.
Defined.

(** X11: the representation tells channels apart by their true name: equal
    representations mean equal true names.  The display name does not: two
    multiplayer instances display alike whatever follows the prefix, and
    their representations differ as soon as their true names do. *)
Theorem repr_identifies_true_name (c1 c2 : Channel.t) :
  (Channel.__repr__ c1 = Channel.__repr__ c2 <->
   Channel._name c1 = Channel._name c2) /\
  (forall a b,
     Channel._name c1 = ("#multi_" ++ a)%string ->
     Channel._name c2 = ("#multi_" ++ b)%string ->
     Channel.name c1 = Channel.name c2 /\
     (a <> b -> Channel.__repr__ c1 <> Channel.__repr__ c2)).
Proof.
  assert (Hinj : Channel.__repr__ c1 = Channel.__repr__ c2 ->
                 Channel._name c1 = Channel._name c2).
  { unfold Channel.__repr__. cbn. intros H. injection H as H.
    apply append_closing_inj. exact H. }
  split.
  - split; [exact Hinj|]. unfold Channel.__repr__. intros ->. reflexivity.
  - intros a b Ha Hb. split.
    + unfold Channel.name. rewrite Ha, Hb. reflexivity.
    + intros Hab Hr. apply Hinj in Hr. rewrite Ha, Hb in Hr. cbn in Hr.
      apply Hab. congruence.
Qed.

Lemma repr_identifies_true_name_witness :
  Channel.name (lobby true [alice])
  = Channel.name (Channel.__init__ "#multi_8" "" 1 1 false true) /\
  Channel.__repr__ (lobby true [alice])
  <> Channel.__repr__ (Channel.__init__ "#multi_8" "" 1 1 false true).
Proof.
  destruct (proj2 (repr_identifies_true_name (lobby true [alice])
              (Channel.__init__ "#multi_8" "" 1 1 false true))
              "7" "8" eq_refl eq_refl) as [Hn Hr].
  split; [exact Hn | apply Hr; discriminate].
Defined.

(** ** More on fan-out *)

Lemma filter_none_immune (x : Z) (l : list Player.t) :
  (forall q, In q l -> Player.id q <> x) ->
  filter (fun p => negb (is_immune [x] p)) l = l.
Proof.
  induction l as [|p l IH]; intros H; [reflexivity|].
  cbn [filter]. unfold is_immune at 1. cbn [existsb].
  destruct (Z.eqb_spec (Player.id p) x) as [He|_].
  - exfalso. exact (H p (or_introl eq_refl) He).
  - cbn. f_equal. apply IH. intros q Hq. apply H. right. exact Hq.
Qed.

Lemma filter_one_immune (client : Player.t) (l : list Player.t) :
  NoDup (identities l) ->
  In client l ->
  length (filter (fun p => negb (is_immune [Player.id client] p)) l) + 1
  = length l.
Proof.
  induction l as [|p l IH]; intros Hnd Hin; [destruct Hin|].
  cbn [identities map] in Hnd. inversion Hnd as [|x xs Hp Hnd']; subst x xs.
  cbn [filter]. unfold is_immune at 1. cbn [existsb].
  destruct (Z.eqb_spec (Player.id p) (Player.id client)) as [He|Hne].
  - cbn [orb negb]. rewrite filter_none_immune; [cbn; lia|].
    intros q Hq Hid. apply Hp. rewrite He, <- Hid. apply in_map. exact Hq.
  - cbn [orb negb length]. destruct Hin as [->|Hin]; [congruence|].
    rewrite <- (IH Hnd' Hin). lia.
Qed.

Lemma deliveries_of_map (data : bytes) (q : Player.t) (l : list Player.t) :
  deliveries_to q (map (fun p => Channel.PlayerEnqueue p data) l)
  = count_occ Player.eq_dec l q.
Proof.
  unfold deliveries_to. induction l as [|p l IH]; [reflexivity|].
  cbn [map filter count_occ]. destruct (Player.eq_dec p q); cbn [length];
    rewrite IH; reflexivity.
Qed.

(** X12: [enqueue] returns normally and leaves the channel as it was; the
    calls it makes are exactly the [enqueue] of [data] on the members whose
    [id] is not in [immune], and their number is the size of the member list
    less the members passed over. *)
Theorem enqueue_recipients (data : bytes) (immune : list Z) (c : Channel.t) :
  Channel.result (Channel.enqueue data immune c) = Channel.Returned tt /\
  Channel.self' (Channel.enqueue data immune c) = c /\
  (forall e, In e (Channel.emitted (Channel.enqueue data immune c)) <->
     exists q, e = Channel.PlayerEnqueue q data /\
               In q (Channel.players c) /\ ~ In (Player.id q) immune) /\
  length (Channel.emitted (Channel.enqueue data immune c))
  + length (filter (is_immune immune) (Channel.players c))
  = length (Channel.players c).
Proof.
  rewrite enqueue_run. cbn [Channel.result Channel.self' Channel.emitted].
  split; [reflexivity | split; [reflexivity | split]].
  - intros e. rewrite in_map_iff. split.
    + intros (q & <- & Hq). apply filter_In in Hq. destruct Hq as [Hq Hn].
      exists q. split; [reflexivity | split; [exact Hq|]].
      intros Him. apply is_immune_iff in Him. unfold is_immune in Him.
      rewrite Him in Hn. discriminate Hn.
    + intros (q & -> & Hq & Hn). exists q. split; [reflexivity|].
      apply filter_In. split; [exact Hq|].
      destruct (existsb (Z.eqb (Player.id q)) immune) eqn:E; [|reflexivity].
      exfalso. apply Hn. apply is_immune_iff. exact E.
  - rewrite length_map, Nat.add_comm.
    apply (filter_length (is_immune immune) (Channel.players c)).
Qed.

(** X13: a session that joins is served last by the next fan-out: after
    [append p] the calls of [enqueue] are those made before the join,
    followed by one on [p] unless the identity of [p] is immune. *)
Theorem enqueue_after_append
    (data : bytes) (immune : list Z) (c : Channel.t) (p : Player.t) :
  Channel.emitted
    (Channel.enqueue data immune (Channel.self' (Channel.append p c)))
  = Channel.emitted (Channel.enqueue data immune c)
    ++ (if is_immune immune p then []
        else [Channel.PlayerEnqueue p data]).
Proof.
  rewrite append_run, !enqueue_run.
  cbn [Channel.self' Channel.emitted Channel.set_players Channel.players].
  rewrite filter_app, map_app. f_equal. cbn [filter]. unfold is_immune.
  destruct (existsb (Z.eqb (Player.id p)) immune); reflexivity.
Qed.

Section FanOutMore.
Variable sendMessage : string -> string -> string -> Z -> bytes.

Lemma send_run (c : Channel.t) (client : Player.t) (msg : string)
    (to_self : bool) :
  Channel.send sendMessage client msg to_self c
  = Channel.mkRun (Channel.Returned tt) c
      (map (fun p => Channel.PlayerEnqueue p (packet sendMessage c client msg))
         (filter (fun p =>
                    negb (is_immune
                            (if to_self then [] else [Player.id client]) p))
            (Channel.players c))).
Proof.
  unfold Channel.send, Channel.bind at 1.
  cbn [Channel.get_self Channel.result Channel.self' Channel.emitted].
  rewrite enqueue_run. reflexivity.
Qed.

(** X14: when no member has the sender's [id], as for a sender who is not
    in the channel, [send] serves every member whether or not [to_self] is
    set. *)
Theorem send_from_outsider
    (c : Channel.t) (client : Player.t) (msg : string) :
  (forall q, In q (Channel.players c) -> Player.id q <> Player.id client) ->
  Channel.send sendMessage client msg false c
  = Channel.send sendMessage client msg true c /\
  Channel.emitted (Channel.send sendMessage client msg false c)
  = map (fun p => Channel.PlayerEnqueue p (packet sendMessage c client msg))
      (Channel.players c).
Proof.
  intros Hout. rewrite !send_run. cbn [Channel.emitted].
  rewrite (filter_none_immune _ _ Hout).
  assert (Hall : filter (fun p => negb (is_immune [] p)) (Channel.players c)
                 = Channel.players c) by apply filter_keep_all.
  rewrite Hall. split; reflexivity.
Qed.

(** X15: when the members have pairwise different [id]s and the sender is
    one of them, [send] without [to_self] makes one call fewer than there
    are members. *)
Theorem send_skips_one_member
    (c : Channel.t) (client : Player.t) (msg : string) :
  NoDup (identities (Channel.players c)) ->
  In client (Channel.players c) ->
  length (Channel.emitted (Channel.send sendMessage client msg false c)) + 1
  = length (Channel.players c).
Proof.
  intros Hnd Hin. rewrite send_run. cbn [Channel.emitted].
  rewrite length_map. apply filter_one_immune; assumption.
Qed.

(** X16: [send_selective] with the member list as targets does what [send]
    with [to_self] set does. *)
Theorem send_selective_to_members_is_send
    (c : Channel.t) (client : Player.t) (msg : string) :
  Channel.send_selective sendMessage client msg (Channel.players c) c
  = Channel.send sendMessage client msg true c.
Proof.
  rewrite send_run. unfold Channel.send_selective.
  rewrite (for_call_run
             (fun c' p =>
                Channel.PlayerEnqueue p (packet sendMessage c' client msg))).
  assert (Hall : filter (fun p => negb (is_immune [] p)) (Channel.players c)
                 = Channel.players c) by apply filter_keep_all.
  rewrite Hall. reflexivity.
Qed.

(** X17: with [to_self] set, [send] calls [enqueue] on a player as many
    times as the player occurs in the member list, so a session joined twice
    is served twice; without [to_self], the players with the sender's [id]
    are not served at all and the others as before. *)
Theorem send_serves_each_occurrence
    (c : Channel.t) (client : Player.t) (msg : string) (q : Player.t) :
  deliveries_to q (Channel.emitted (Channel.send sendMessage client msg true c))
  = count_occ Player.eq_dec (Channel.players c) q /\
  deliveries_to q
    (Channel.emitted (Channel.send sendMessage client msg false c))
  = if Z.eqb (Player.id q) (Player.id client) then 0
    else count_occ Player.eq_dec (Channel.players c) q.
Proof.
  rewrite !send_run. cbn [Channel.emitted]. rewrite !deliveries_of_map.
  split.
  - assert (Hall : filter (fun p => negb (is_immune [] p)) (Channel.players c)
                   = Channel.players c) by apply filter_keep_all.
    rewrite Hall. reflexivity.
  - induction (Channel.players c) as [|p l IH].
    + destruct (Z.eqb (Player.id q) (Player.id client)); reflexivity.
    + cbn [filter]. unfold is_immune at 1. cbn [existsb].
      destruct (Z.eqb_spec (Player.id p) (Player.id client)) as [He|Hne];
        cbn [orb negb count_occ].
      * rewrite IH. destruct (Player.eq_dec p q) as [->|_]; [|reflexivity].
        rewrite He, Z.eqb_refl. reflexivity.
      * destruct (Player.eq_dec p q) as [->|_]; [|exact IH].
        rewrite IH. destruct (Z.eqb_spec (Player.id q) (Player.id client));
          [contradiction | reflexivity].
Qed.
End FanOutMore.

Lemma send_from_outsider_witness :
  Channel.send plain_sendMessage carol "hi" false (lobby false [alice; bob])
  = Channel.send plain_sendMessage carol "hi" true (lobby false [alice; bob]).
Proof.
  apply (send_from_outsider plain_sendMessage (lobby false [alice; bob])
           carol "hi").
  cbn. intros q [<-|[<-|[]]]; discriminate.
Defined.

Lemma send_skips_one_member_witness :
  length (Channel.emitted
    (Channel.send plain_sendMessage bob "hi" false
       (lobby false [alice; bob; carol]))) + 1 = 3.
Proof.
  apply (send_skips_one_member plain_sendMessage
           (lobby false [alice; bob; carol]) bob "hi").
  - cbn. repeat constructor; cbn; intuition discriminate.
  - cbn. right. left. reflexivity.
Defined.

Lemma append_then_contains_witness :
  Channel.__contains__
    (Channel.self' (Channel.append bob (lobby false [alice]))) alice = true.
Proof.
  apply (proj2 (append_then_contains (lobby false [alice]) bob alice)).
  right. reflexivity.
Defined.

Lemma enqueue_recipients_witness :
  In (Channel.PlayerEnqueue alice [])
    (Channel.emitted (Channel.enqueue [] [1002%Z] (lobby false [alice; bob]))).
Proof.
  apply (proj2 (proj1 (proj2 (proj2
           (enqueue_recipients [] [1002%Z] (lobby false [alice; bob]))))
           (Channel.PlayerEnqueue alice []))).
  exists alice. split; [reflexivity | split].
  - cbn. left. reflexivity.
  - cbn. intros [H|[]]. discriminate H.
Defined.
